(** * The 32-bit EL1 capability probe ([utils/aarch64_32_bit_el1_supported.c])

    The program is one C function, [main], made of three libc calls
    ([open], [ioctl], [close]), two [perror] diagnostics and one read of
    [errno].  It is embedded as a finite tree of libc calls; the tree is
    run against a [world] that answers the calls, threading the process
    state ([errno], the bytes written per descriptor, the log of the calls
    issued).

    Conventions used throughout:
    - a C [int] is a [Z]; the only arithmetic the program does on one,
      unary minus, is written with its 32-bit wrap-around;
    - the "exit status" of an execution is the [int] that [main] returns;
    - [perror] writes its line to descriptor 2, with the text of [errno]
      as it finds it, and may itself store an error code in [errno]
      afterwards, as the C library does when the stream is not fully
      usable. *)

From Stdlib Require Import ZArith List String Ascii Bool Lia.
Import ListNotations.

Local Open Scope string_scope.
Local Open Scope Z_scope.

(** ** C [int] operations used by the program *)

Module CInt.

Definition int_min : Z := - 2 ^ 31.
Definition int_max : Z := 2 ^ 31 - 1.

(** Reduction of a mathematical integer to the signed 32-bit range. *)
Definition wrap (x : Z) : Z := (x + 2 ^ 31) mod 2 ^ 32 - 2 ^ 31.

(** Unary minus, [-x]. *)
Definition neg (x : Z) : Z := wrap (- x).

(** Logical negation, [!x]. *)
Definition lnot (x : Z) : Z := if x =? 0 then 1 else 0.

End CInt.

(** ** The libc interface the program is linked against *)

(** The calls a program can issue, indexed by the type of their result.
    [ErrnoRead] is the evaluation of the [errno] lvalue.  [main] calls
    neither [Getenv], the only way a [main(void)] could reach the
    environment, nor [Puts], which writes to standard output; both are in
    the interface so that "consumes no environment" and "writes nothing to
    standard output" say something of [main]. *)
Inductive libcE : Type -> Type :=
| Open (path : string) (flags : Z) : libcE Z
| Ioctl (fd request arg : Z) : libcE Z
| Close (fd : Z) : libcE Z
| Perror (s : string) : libcE unit
| ErrnoRead : libcE Z
| Getenv (name : string) : libcE (option string)
| Puts (s : string) : libcE Z.

(** A program: it returns, or issues a call and continues with its result. *)
Inductive prog (R : Type) : Type :=
| Ret (r : R)
| Call {X : Type} (e : libcE X) (k : X -> prog R).

Arguments Ret {R} r.
Arguments Call {R X} e k.

Fixpoint bind {A B : Type} (p : prog A) (f : A -> prog B) : prog B :=
  match p with
  | Ret a => f a
  | Call e k => Call e (fun x => bind (k x) f)
  end.

Definition call {X : Type} (e : libcE X) : prog X := Call e Ret.

Declare Scope prog_scope.
Delimit Scope prog_scope with prog.
Notation "x <- c ;; k" := (bind c (fun x => k))
  (at level 100, c at next level, right associativity) : prog_scope.
Notation "c ;;; k" := (bind c (fun _ => k))
  (at level 100, right associativity) : prog_scope.

(** ** The world answering the calls *)

(** What a system call hands back: its return value and, when it stores
    one, the error code it leaves in [errno]. *)
Record reply : Type := mkReply { rv : Z; err : option Z }.

Record world : Type := mkWorld {
  sys_open : string -> Z -> reply;
  sys_ioctl : Z -> Z -> Z -> reply;
  sys_close : Z -> reply;
  perror_err : string -> Z -> option Z;
  strerror : Z -> string
}.

(** The POSIX discipline of a failing call: a negative return value comes
    with a positive error code that fits an [int]. *)
Definition posix_reply (r : reply) : bool :=
  if rv r <? 0 then
    match err r with
    | Some e => (0 <? e) && (e <=? CInt.int_max)
    | None => false
    end
  else true.

(** The same discipline for a call that only stores a code, as [perror]
    does: the code, if any, is positive and fits an [int]. *)
Definition posix_code (o : option Z) : bool :=
  match o with
  | Some e => (0 <? e) && (e <=? CInt.int_max)
  | None => true
  end.

(** One entry of the log of calls issued, with the value returned. *)
Inductive entry : Type :=
| E_open (path : string) (flags : Z) (ret : Z)
| E_ioctl (fd request arg : Z) (ret : Z)
| E_close (fd : Z) (ret : Z)
| E_perror (s : string)
| E_getenv (name : string)
| E_puts (s : string).

Definition STDOUT_FILENO : Z := 1.
Definition STDERR_FILENO : Z := 2.

(** What [execve] hands to a new process. *)
Record image : Type := mkImage {
  argv : list string;
  envp : list (string * string)
}.

Record proc : Type := mkProc {
  errno : Z;
  environ : list (string * string);
  output : list (Z * string);
  calls : list entry
}.

(** State of a process at startup: [errno] is zero, nothing was written,
    nothing was called.  [main] is declared [int main(void)], so the
    argument vector is not passed on. *)
Definition init (img : image) : proc :=
  {| errno := 0; environ := envp img; output := []; calls := [] |}.

Definition stored (o : option Z) (old : Z) : Z :=
  match o with
  | Some e => e
  | None => old
  end.

Definition set_errno (o : option Z) (s : proc) : proc :=
  {| errno := stored o (errno s); environ := environ s;
     output := output s; calls := calls s |}.

Definition log (c : entry) (s : proc) : proc :=
  {| errno := errno s; environ := environ s;
     output := output s; calls := (calls s ++ [c])%list |}.

Definition write (fd : Z) (text : string) (s : proc) : proc :=
  {| errno := errno s; environ := environ s;
     output := (output s ++ [(fd, text)])%list; calls := calls s |}.

Definition newline : string := String (ascii_of_nat 10) EmptyString.

(** The line [perror(s)] prints when [errno] is [e]. *)
Definition perror_text (w : world) (s : string) (e : Z) : string :=
  s ++ ": " ++ strerror w e ++ newline.

Fixpoint lookup_env (name : string) (env : list (string * string)) : option string :=
  match env with
  | [] => None
  | (k, v) :: rest => if String.eqb k name then Some v else lookup_env name rest
  end.

(** The effect of one call on the process, and the value it returns. *)
Definition handle (w : world) {X : Type} (e : libcE X) (s : proc) : X * proc :=
  match e in libcE T return T * proc with
  | Open path flags =>
      let r := sys_open w path flags in
      (rv r, log (E_open path flags (rv r)) (set_errno (err r) s))
  | Ioctl fd request arg =>
      let r := sys_ioctl w fd request arg in
      (rv r, log (E_ioctl fd request arg (rv r)) (set_errno (err r) s))
  | Close fd =>
      let r := sys_close w fd in
      (rv r, log (E_close fd (rv r)) (set_errno (err r) s))
  | Perror msg =>
      (tt, log (E_perror msg)
             (set_errno (perror_err w msg (errno s))
                (write STDERR_FILENO (perror_text w msg (errno s)) s)))
  | ErrnoRead => (errno s, s)
  | Getenv name => (lookup_env name (environ s), log (E_getenv name) s)
  | Puts text => (0, log (E_puts text) (write STDOUT_FILENO (text ++ newline) s))
  end.

Fixpoint run {R : Type} (w : world) (p : prog R) (s : proc) : R * proc :=
  match p with
  | Ret r => (r, s)
  | Call e k => let (x, s') := handle w e s in run w (k x) s'
  end.

(** Projections of a log and of the output. *)
Definition closes (l : list entry) : list Z :=
  flat_map (fun c => match c with E_close fd _ => [fd] | _ => [] end) l.

Definition ioctls (l : list entry) : list (Z * Z * Z) :=
  flat_map (fun c => match c with
                     | E_ioctl fd request arg _ => [(fd, request, arg)]
                     | _ => []
                     end) l.

Definition perrors (l : list entry) : list string :=
  flat_map (fun c => match c with E_perror s => [s] | _ => [] end) l.

Definition opens (l : list entry) : list (string * Z) :=
  flat_map (fun c => match c with E_open path flags _ => [(path, flags)] | _ => [] end) l.

(** Replay of a log over the table of the descriptors the program holds:
    an [open] that returns a non-negative handle adds it, a [close] gives
    the handle back whatever it returns, and an [ioctl] or a [close] on a
    handle that is not in the table is a fault ([None]). *)
Fixpoint held (l : list entry) (table : list Z) : option (list Z) :=
  match l with
  | [] => Some table
  | E_open _ _ fd :: rest =>
      held rest (if fd <? 0 then table else fd :: table)
  | E_ioctl fd _ _ _ :: rest =>
      if existsb (Z.eqb fd) table then held rest table else None
  | E_close fd _ :: rest =>
      if existsb (Z.eqb fd) table
      then held rest (filter (fun x => negb (x =? fd)) table)
      else None
  | _ :: rest => held rest table
  end.

Definition written_to (fd : Z) (out : list (Z * string)) : list string :=
  map snd (filter (fun p => fst p =? fd) out).

(** ** Sample worlds *)

Definition ENOENT : Z := 2.
Definition EBADF : Z := 9.
Definition EINTR : Z := 4.
Definition EINVAL : Z := 22.
Definition ENOTTY : Z := 25.

Definition ok (v : Z) : reply := {| rv := v; err := None |}.
Definition fails (e : Z) : reply := {| rv := -1; err := Some e |}.

Definition messages (e : Z) : string :=
  if e =? 2 then "No such file or directory"
  else if e =? 4 then "Interrupted system call"
  else if e =? 9 then "Bad file descriptor"
  else if e =? 22 then "Invalid argument"
  else if e =? 25 then "Inappropriate ioctl for device"
  else "Unknown error".

(** A host whose controller opens as descriptor 3 and answers the
    capability query with [r]; [close] answers [c]. *)
Definition host (r c : reply) : world :=
  {| sys_open := fun _ _ => ok 3;
     sys_ioctl := fun _ _ _ => r;
     sys_close := fun _ => c;
     perror_err := fun _ _ => None;
     strerror := messages |}.

(** A host without the controller device. *)
Definition no_kvm : world :=
  {| sys_open := fun _ _ => fails ENOENT;
     sys_ioctl := fun _ _ _ => fails EBADF;
     sys_close := fun _ => fails EBADF;
     perror_err := fun _ _ => None;
     strerror := messages |}.

(** The same host when standard error was opened write-only: [perror]
    prints its line and leaves [EINVAL] in [errno]. *)
Definition no_kvm_stderr_wronly : world :=
  {| sys_open := fun _ _ => fails ENOENT;
     sys_ioctl := fun _ _ _ => fails EBADF;
     sys_close := fun _ => fails EBADF;
     perror_err := fun _ _ => Some EINVAL;
     strerror := messages |}.

(** The constants the program takes from [<fcntl.h>] and [<linux/kvm.h>];
    their values are not part of the program. *)
Record uapi : Type := mkUapi {
  O_RDWR : Z;
  KVM_CHECK_EXTENSION : Z;
  KVM_CAP_ARM_EL1_32BIT : Z
}.

(** The values they have on Linux. *)
Definition linux : uapi :=
  {| O_RDWR := 2; KVM_CHECK_EXTENSION := 44547; KVM_CAP_ARM_EL1_32BIT := 93 |}.

Definition bare : image := {| argv := ["probe"]; envp := [] |}.

Definition busy : image :=
  {| argv := ["probe"; "--verbose"; "x"];
     envp := [("LANG", "fr_FR.UTF-8"); ("HOME", "/root")] |}.

(** ** The program *)

Section Probe.

Variable h : uapi.

Local Open Scope prog_scope.

Definition open_msg : string := "Failed to open /dev/kvm".
Definition ioctl_msg : string := "Error checking /dev/kvm for 32-bit EL1 support".

Definition main : prog Z :=
  fd <- call (Open "/dev/kvm" (O_RDWR h)) ;;
  if fd <? 0 then
    (call (Perror open_msg) ;;;
     e <- call ErrnoRead ;;
     Ret (CInt.neg e))
  else
    (ret <- call (Ioctl fd (KVM_CHECK_EXTENSION h) (KVM_CAP_ARM_EL1_32BIT h)) ;;
     ret <- (if ret <? 0 then
               (call (Perror ioctl_msg) ;;; Ret 0)
             else Ret ret) ;;
     call (Close fd) ;;;
     Ret (CInt.lnot ret)).

(** Process startup: the C runtime builds the initial state from the
    image and calls [main]. *)
Definition exec (w : world) (img : image) : Z * proc := run w main (init img).

Definition exit_status (w : world) (img : image) : Z := fst (exec w img).
Definition final (w : world) (img : image) : proc := snd (exec w img).

(** The answers the world gives to the calls the program makes. *)
Definition open_reply (w : world) : reply := sys_open w "/dev/kvm" (O_RDWR h).
Definition ioctl_reply (w : world) : reply :=
  sys_ioctl w (rv (open_reply w)) (KVM_CHECK_EXTENSION h) (KVM_CAP_ARM_EL1_32BIT h).
Definition close_reply (w : world) : reply := sys_close w (rv (open_reply w)).

(** [errno] as [perror] finds it after the open, and after the query. *)
Definition errno_open (w : world) : Z := stored (err (open_reply w)) 0.
Definition errno_ioctl (w : world) : Z := stored (err (ioctl_reply w)) (errno_open w).

(** The code [perror] stores, if any, when [main] calls it after the
    open, and after the query. *)
Definition perror_open (w : world) : option Z :=
  perror_err w open_msg (errno_open w).
Definition perror_ioctl (w : world) : option Z :=
  perror_err w ioctl_msg (errno_ioctl w).

(** [errno] as [main] reads it for [return -errno], after [perror]. *)
Definition errno_return (w : world) : Z := stored (perror_open w) (errno_open w).

(** The three shapes an execution can take, read off the control flow
    of [main]: the early [return -errno], the path through the second
    [perror], and the straight path. *)
Variant behaviour (w : world) (img : image) : Z * proc -> Prop :=
| OpenFailed :
    rv (open_reply w) < 0 ->
    behaviour w img
      (CInt.neg (errno_return w),
       {| errno := errno_return w;
          environ := envp img;
          output := [(STDERR_FILENO, perror_text w open_msg (errno_open w))];
          calls := [E_open "/dev/kvm" (O_RDWR h) (rv (open_reply w));
                    E_perror open_msg] |})
| QueryFailed :
    0 <= rv (open_reply w) ->
    rv (ioctl_reply w) < 0 ->
    behaviour w img
      (CInt.lnot 0,
       {| errno := stored (err (close_reply w))
                     (stored (perror_ioctl w) (errno_ioctl w));
          environ := envp img;
          output := [(STDERR_FILENO, perror_text w ioctl_msg (errno_ioctl w))];
          calls := [E_open "/dev/kvm" (O_RDWR h) (rv (open_reply w));
                    E_ioctl (rv (open_reply w)) (KVM_CHECK_EXTENSION h)
                            (KVM_CAP_ARM_EL1_32BIT h) (rv (ioctl_reply w));
                    E_perror ioctl_msg;
                    E_close (rv (open_reply w)) (rv (close_reply w))] |})
| QueryAnswered :
    0 <= rv (open_reply w) ->
    0 <= rv (ioctl_reply w) ->
    behaviour w img
      (CInt.lnot (rv (ioctl_reply w)),
       {| errno := stored (err (close_reply w)) (errno_ioctl w);
          environ := envp img;
          output := [];
          calls := [E_open "/dev/kvm" (O_RDWR h) (rv (open_reply w));
                    E_ioctl (rv (open_reply w)) (KVM_CHECK_EXTENSION h)
                            (KVM_CAP_ARM_EL1_32BIT h) (rv (ioctl_reply w));
                    E_close (rv (open_reply w)) (rv (close_reply w))] |}).

(** The same world with another [close]. *)
Definition with_close (w : world) (c : Z -> reply) : world :=
  {| sys_open := sys_open w; sys_ioctl := sys_ioctl w;
     sys_close := c; perror_err := perror_err w; strerror := strerror w |}.

(** ** Facts on the [int] operations *)

Lemma wrap_small (x : Z) : CInt.int_min <= x <= CInt.int_max -> CInt.wrap x = x.
Proof.
  unfold CInt.wrap, CInt.int_min, CInt.int_max. intros H.
  rewrite Z.mod_small; lia.
Qed.

Lemma neg_errno (e : Z) : 0 < e <= CInt.int_max -> CInt.neg e = - e.
Proof.
  intros H. unfold CInt.neg. apply wrap_small.
  unfold CInt.int_min, CInt.int_max in *. lia.
Qed.

Lemma lnot_zero : CInt.lnot 0 = 1.
Proof. reflexivity. Qed.

Lemma lnot_nonzero (x : Z) : x <> 0 -> CInt.lnot x = 0.
Proof.
  intros H. unfold CInt.lnot.
  destruct (Z.eqb_spec x 0); [contradiction | reflexivity].
Qed.

(** ** Sequencing *)

(** [x <- c ;; k] runs [c], then [k] on its result, in the state [c] left. *)
Lemma run_bind {A B : Type} (w : world) (p : prog A) (f : A -> prog B) (s : proc) :
  run w (bind p f) s = (let (a, s') := run w p s in run w (f a) s').
Proof.
  revert s. induction p as [a | X e k IH]; intros s; cbn [bind run].
  - reflexivity.
  - destruct (handle w e s) as [x s']. apply IH.
Qed.

Lemma run_call {X : Type} (w : world) (e : libcE X) (s : proc) :
  run w (call e) s = handle w e s.
Proof.
  unfold call. cbn [run]. destruct (handle w e s) as [x s']. reflexivity.
Qed.

(** ** Executions follow one of the three shapes *)

Ltac step_main :=
  unfold exec, main, errno_return, perror_open, perror_ioctl,
    errno_ioctl, errno_open, ioctl_reply, close_reply, open_reply in *;
  cbn [run bind call handle init set_errno log write
       errno environ output calls app fst snd].

Lemma exec_open_failed (w : world) (img : image) :
  rv (open_reply w) < 0 ->
  exec w img =
    (CInt.neg (errno_return w),
     {| errno := errno_return w;
        environ := envp img;
        output := [(STDERR_FILENO, perror_text w open_msg (errno_open w))];
        calls := [E_open "/dev/kvm" (O_RDWR h) (rv (open_reply w));
                  E_perror open_msg] |}).
Proof.
  intros Hfd. step_main.
  destruct (Z.ltb_spec (rv (sys_open w "/dev/kvm" (O_RDWR h))) 0) as [_ | Hge];
    [reflexivity | lia].
Qed.

Lemma exec_query_failed (w : world) (img : image) :
  0 <= rv (open_reply w) ->
  rv (ioctl_reply w) < 0 ->
  exec w img =
    (CInt.lnot 0,
     {| errno := stored (err (close_reply w))
                   (stored (perror_ioctl w) (errno_ioctl w));
        environ := envp img;
        output := [(STDERR_FILENO, perror_text w ioctl_msg (errno_ioctl w))];
        calls := [E_open "/dev/kvm" (O_RDWR h) (rv (open_reply w));
                  E_ioctl (rv (open_reply w)) (KVM_CHECK_EXTENSION h)
                          (KVM_CAP_ARM_EL1_32BIT h) (rv (ioctl_reply w));
                  E_perror ioctl_msg;
                  E_close (rv (open_reply w)) (rv (close_reply w))] |}).
Proof.
  intros Hfd Hret. step_main.
  destruct (Z.ltb_spec (rv (sys_open w "/dev/kvm" (O_RDWR h))) 0) as [Hlt | _];
    [lia | ].
  cbn [run bind call handle set_errno log write
       errno environ output calls app].
  destruct (Z.ltb_spec
              (rv (sys_ioctl w (rv (sys_open w "/dev/kvm" (O_RDWR h)))
                     (KVM_CHECK_EXTENSION h) (KVM_CAP_ARM_EL1_32BIT h))) 0) as [_ | Hge];
    [reflexivity | lia].
Qed.

Lemma exec_query_answered (w : world) (img : image) :
  0 <= rv (open_reply w) ->
  0 <= rv (ioctl_reply w) ->
  exec w img =
    (CInt.lnot (rv (ioctl_reply w)),
     {| errno := stored (err (close_reply w)) (errno_ioctl w);
        environ := envp img;
        output := [];
        calls := [E_open "/dev/kvm" (O_RDWR h) (rv (open_reply w));
                  E_ioctl (rv (open_reply w)) (KVM_CHECK_EXTENSION h)
                          (KVM_CAP_ARM_EL1_32BIT h) (rv (ioctl_reply w));
                  E_close (rv (open_reply w)) (rv (close_reply w))] |}).
Proof.
  intros Hfd Hret. step_main.
  destruct (Z.ltb_spec (rv (sys_open w "/dev/kvm" (O_RDWR h))) 0) as [Hlt | _];
    [lia | ].
  cbn [run bind call handle set_errno log write
       errno environ output calls app].
  destruct (Z.ltb_spec
              (rv (sys_ioctl w (rv (sys_open w "/dev/kvm" (O_RDWR h)))
                     (KVM_CHECK_EXTENSION h) (KVM_CAP_ARM_EL1_32BIT h))) 0) as [Hlt | _];
    [lia | reflexivity].
Qed.

Lemma exec_behaviour (w : world) (img : image) : behaviour w img (exec w img).
Proof.
  destruct (Z.lt_ge_cases (rv (open_reply w)) 0) as [Hfd | Hfd].
  - rewrite exec_open_failed by assumption. now constructor.
  - destruct (Z.lt_ge_cases (rv (ioctl_reply w)) 0) as [Hret | Hret].
    + rewrite exec_query_failed by assumption. now constructor.
    + rewrite exec_query_answered by assumption. now constructor.
Qed.

(** A failing call that follows the POSIX discipline leaves a positive
    code in [errno]. *)
Lemma posix_failure (r : reply) :
  rv r < 0 -> posix_reply r = true ->
  exists e, err r = Some e /\ 0 < e <= CInt.int_max.
Proof.
  unfold posix_reply. intros Hneg Hp.
  destruct (Z.ltb_spec (rv r) 0) as [_ | Hge]; [ | lia].
  destruct (err r) as [e | ]; [ | discriminate].
  apply andb_true_iff in Hp. destruct Hp as [Hpos Hmax].
  exists e. split; [reflexivity | ].
  apply Z.ltb_lt in Hpos. apply Z.leb_le in Hmax. lia.
Qed.

Lemma errno_open_positive (w : world) :
  rv (open_reply w) < 0 -> posix_reply (open_reply w) = true ->
  err (open_reply w) = Some (errno_open w) /\ 0 < errno_open w <= CInt.int_max.
Proof.
  intros Hneg Hp.
  destruct (posix_failure _ Hneg Hp) as (e & He & Hrange).
  unfold errno_open. rewrite He. cbn. split; [reflexivity | exact Hrange].
Qed.

Lemma posix_code_range (o : option Z) (old : Z) :
  posix_code o = true -> 0 < old <= CInt.int_max ->
  0 < stored o old <= CInt.int_max.
Proof.
  intros Hp Hold. destruct o as [e | ]; cbn [stored]; [ | exact Hold].
  cbn [posix_code] in Hp. apply andb_true_iff in Hp. destruct Hp as [Hpos Hmax].
  apply Z.ltb_lt in Hpos. apply Z.leb_le in Hmax. lia.
Qed.

(** The code [main] negates on the early return is positive when the
    failing [open] and [perror] both follow the discipline. *)
Lemma errno_return_positive (w : world) :
  rv (open_reply w) < 0 ->
  posix_reply (open_reply w) = true ->
  posix_code (perror_open w) = true ->
  0 < errno_return w <= CInt.int_max.
Proof.
  intros Hfd Hp Hq. unfold errno_return.
  apply posix_code_range; [exact Hq | ].
  apply (errno_open_positive w Hfd Hp).
Qed.

(** ** The exit status *)

(** C1. When the open succeeds and the capability query answers r in
    {0, 1}, the exit status is the logical negation of r: 0 when r = 1
    (supported) and 1 when r = 0 (unsupported). *)
Theorem exit_negates_capability (w : world) (img : image) :
  0 <= rv (open_reply w) ->
  rv (ioctl_reply w) = 0 \/ rv (ioctl_reply w) = 1 ->
  exit_status w img = CInt.lnot (rv (ioctl_reply w)) /\
  (rv (ioctl_reply w) = 1 -> exit_status w img = 0) /\
  (rv (ioctl_reply w) = 0 -> exit_status w img = 1).
Proof.
  intros Hfd Hr. unfold exit_status.
  rewrite exec_query_answered by lia. cbn [fst].
  split; [reflexivity | ].
  split; intros Heq; rewrite Heq; reflexivity.
Qed.

(** C3. When the open succeeds and the capability query returns a
    negative value, the program goes on: it writes the query diagnostic
    to standard error, continues with the result 0 in place of the
    answer, closes the handle it opened, and exits with status 1. *)
Theorem query_failure_reports_unsupported (w : world) (img : image) :
  0 <= rv (open_reply w) ->
  rv (ioctl_reply w) < 0 ->
  output (final w img) =
    [(STDERR_FILENO, perror_text w ioctl_msg (errno_ioctl w))] /\
  closes (calls (final w img)) = [rv (open_reply w)] /\
  last (calls (final w img)) (E_perror ioctl_msg) =
    E_close (rv (open_reply w)) (rv (close_reply w)) /\
  exit_status w img = CInt.lnot 0 /\
  exit_status w img = 1.
Proof.
  intros Hfd Hret. unfold exit_status, final.
  rewrite exec_query_failed by assumption.
  cbn [fst snd output calls]. repeat split.
Qed.

(** C5. The exit status is 0, 1 or negative: 0 exactly when the query
    succeeded with a positive answer, 1 exactly when the query answered
    0 or failed, negative exactly when the device could not be opened,
    in which case it is the opposite of the error code found in errno at
    the return. *)
Theorem exit_status_trichotomy (w : world) (img : image) :
  posix_reply (open_reply w) = true ->
  posix_code (perror_open w) = true ->
  (exit_status w img = 0 <->
     0 <= rv (open_reply w) /\ 0 < rv (ioctl_reply w)) /\
  (exit_status w img = 1 <->
     0 <= rv (open_reply w) /\ rv (ioctl_reply w) <= 0) /\
  (exit_status w img < 0 <-> rv (open_reply w) < 0) /\
  (exit_status w img < 0 -> exit_status w img = - errno (final w img)) /\
  (exit_status w img = 0 \/ exit_status w img = 1 \/ exit_status w img < 0).
Proof.
  intros Hp Hq. unfold exit_status, final.
  destruct (exec_behaviour w img) as [Hfd | Hfd Hret | Hfd Hret];
    cbn [fst snd errno].
  - pose proof (errno_return_positive w Hfd Hp Hq) as Hrange.
    rewrite neg_errno by assumption. lia.
  - rewrite lnot_zero. lia.
  - destruct (Z.eq_dec (rv (ioctl_reply w)) 0) as [Hz | Hnz].
    + rewrite Hz, lnot_zero. lia.
    + rewrite lnot_nonzero by assumption. lia.
Qed.

(** C6. With the open succeeding, an execution whose query answers 0
    and an execution whose query fails both exit with status 1; neither
    writes to standard output, the first writes nothing at all and the
    second writes the query diagnostic to standard error. *)
Theorem query_failure_coalesced (w1 w2 : world) (img1 img2 : image) :
  0 <= rv (open_reply w1) ->
  0 <= rv (open_reply w2) ->
  rv (ioctl_reply w1) = 0 ->
  rv (ioctl_reply w2) < 0 ->
  exit_status w1 img1 = exit_status w2 img2 /\
  exit_status w2 img2 = 1 /\
  output (final w1 img1) = [] /\
  output (final w2 img2) =
    [(STDERR_FILENO, perror_text w2 ioctl_msg (errno_ioctl w2))] /\
  written_to STDOUT_FILENO (output (final w1 img1)) =
    written_to STDOUT_FILENO (output (final w2 img2)).
Proof.
  intros Hfd1 Hfd2 Hzero Hneg. unfold exit_status, final.
  rewrite (exec_query_answered w1) by lia.
  rewrite (exec_query_failed w2) by assumption.
  rewrite Hzero. cbn [fst snd output]. repeat split.
Qed.

(** C9. With the open succeeding and a non-negative answer r, the exit
    status is 0 whenever r is not zero and 1 only when r = 0; an answer
    above 1 gives what the answer 1 gives, exit status 0. *)
Theorem nonzero_answer_is_supported (w : world) (img : image) :
  0 <= rv (open_reply w) ->
  0 <= rv (ioctl_reply w) ->
  (rv (ioctl_reply w) <> 0 -> exit_status w img = 0) /\
  (exit_status w img = 1 <-> rv (ioctl_reply w) = 0) /\
  (1 < rv (ioctl_reply w) ->
     exit_status w img = CInt.lnot 1 /\ exit_status w img = 0).
Proof.
  intros Hfd Hret. unfold exit_status.
  rewrite exec_query_answered by assumption. cbn [fst].
  unfold CInt.lnot.
  destruct (Z.eqb_spec (rv (ioctl_reply w)) 0) as [Hz | Hnz].
  - repeat split; intros; try reflexivity; try assumption; lia.
  - repeat split; intros; try reflexivity; try discriminate; contradiction.
Qed.

(** ** The handle *)

(** C4. When the open succeeded the log of calls holds exactly one
    close, of the handle the open returned; it is the last call, it
    comes after the one capability query, whatever the query returned.
    When the open failed the log holds no close. *)
Theorem handle_closed_exactly_once (w : world) (img : image) :
  closes (calls (final w img)) =
    (if rv (open_reply w) <? 0 then [] else [rv (open_reply w)]) /\
  (0 <= rv (open_reply w) ->
   exists before : list entry,
     calls (final w img) =
       (before ++ [E_close (rv (open_reply w)) (rv (close_reply w))])%list /\
     ioctls before =
       [(rv (open_reply w), (KVM_CHECK_EXTENSION h), (KVM_CAP_ARM_EL1_32BIT h))] /\
     closes before = []).
Proof.
  unfold final.
  destruct (exec_behaviour w img) as [Hfd | Hfd Hret | Hfd Hret];
    cbn [snd calls];
    destruct (Z.ltb_spec (rv (open_reply w)) 0) as [Hlt | Hge]; try lia;
    (split; [reflexivity | intros Hok]); try lia.
  - exists [E_open "/dev/kvm" (O_RDWR h) (rv (open_reply w));
            E_ioctl (rv (open_reply w)) (KVM_CHECK_EXTENSION h)
                    (KVM_CAP_ARM_EL1_32BIT h) (rv (ioctl_reply w));
            E_perror ioctl_msg].
    repeat split.
  - exists [E_open "/dev/kvm" (O_RDWR h) (rv (open_reply w));
            E_ioctl (rv (open_reply w)) (KVM_CHECK_EXTENSION h)
                    (KVM_CAP_ARM_EL1_32BIT h) (rv (ioctl_reply w))].
    repeat split.
Qed.

(** C10. What close returns is not looked at: replacing the answer of
    close by any other leaves the exit status, the output and the
    diagnostics issued as they were. *)
Theorem close_result_discarded (w : world) (c : Z -> reply) (img : image) :
  exit_status (with_close w c) img = exit_status w img /\
  output (final (with_close w c) img) = output (final w img) /\
  perrors (calls (final (with_close w c) img)) = perrors (calls (final w img)).
Proof.
  unfold exit_status, final.
  destruct (Z.lt_ge_cases (rv (open_reply w)) 0) as [Hfd | Hfd].
  - rewrite (exec_open_failed (with_close w c)) by exact Hfd.
    rewrite (exec_open_failed w) by exact Hfd.
    repeat split.
  - destruct (Z.lt_ge_cases (rv (ioctl_reply w)) 0) as [Hret | Hret].
    + rewrite (exec_query_failed (with_close w c)) by assumption.
      rewrite (exec_query_failed w) by assumption.
      repeat split.
    + rewrite (exec_query_answered (with_close w c)) by assumption.
      rewrite (exec_query_answered w) by assumption.
      repeat split.
Qed.

(** ** The output *)

(** C7. Nothing is ever written to standard output.  The whole output
    is one diagnostic on standard error when the open failed, one
    diagnostic on standard error when the query failed, and nothing
    when both succeeded. *)
Theorem diagnostics_only_on_failure (w : world) (img : image) :
  written_to STDOUT_FILENO (output (final w img)) = [] /\
  output (final w img) =
    (if rv (open_reply w) <? 0 then
       [(STDERR_FILENO, perror_text w open_msg (errno_open w))]
     else if rv (ioctl_reply w) <? 0 then
       [(STDERR_FILENO, perror_text w ioctl_msg (errno_ioctl w))]
     else []) /\
  (output (final w img) = [] <->
     0 <= rv (open_reply w) /\ 0 <= rv (ioctl_reply w)).
Proof.
  unfold final.
  destruct (exec_behaviour w img) as [Hfd | Hfd Hret | Hfd Hret];
    cbn [snd output].
  - apply Z.ltb_lt in Hfd as Hb. rewrite Hb.
    repeat split; try reflexivity; try discriminate; lia.
  - apply Z.ltb_ge in Hfd as Hb. apply Z.ltb_lt in Hret as Hb'.
    rewrite Hb, Hb'.
    repeat split; try reflexivity; try discriminate; lia.
  - apply Z.ltb_ge in Hfd as Hb. apply Z.ltb_ge in Hret as Hb'.
    rewrite Hb, Hb'.
    repeat split; try reflexivity; assumption.
Qed.

(** C8. The argument vector and the environment are not consumed: two
    invocations that get the same answers from open and from the query
    (return values and error codes), the same code from the perror that
    follows a failed open, and the same table of error messages, give the
    same exit status and the same output, whatever their process images. *)
Theorem argv_environ_not_consumed (w1 w2 : world) (img1 img2 : image) :
  open_reply w1 = open_reply w2 ->
  ioctl_reply w1 = ioctl_reply w2 ->
  perror_open w1 = perror_open w2 ->
  (forall e : Z, strerror w1 e = strerror w2 e) ->
  exit_status w1 img1 = exit_status w2 img2 /\
  output (final w1 img1) = output (final w2 img2).
Proof.
  intros Hopen Hioctl Hperror Hmsg. unfold exit_status, final.
  assert (Heo : errno_open w1 = errno_open w2)
    by (unfold errno_open; rewrite Hopen; reflexivity).
  assert (Hei : errno_ioctl w1 = errno_ioctl w2)
    by (unfold errno_ioctl; rewrite Hioctl, Heo; reflexivity).
  assert (Her : errno_return w1 = errno_return w2)
    by (unfold errno_return; rewrite Hperror, Heo; reflexivity).
  destruct (exec_behaviour w1 img1) as [Hfd | Hfd Hret | Hfd Hret];
    rewrite ?Hopen, ?Hioctl in *.
  - rewrite exec_open_failed by assumption.
    cbn [fst snd output]. unfold perror_text.
    rewrite Her, Heo, Hmsg. split; reflexivity.
  - rewrite exec_query_failed by assumption.
    cbn [fst snd output]. unfold perror_text.
    rewrite Hei, Hmsg. split; reflexivity.
  - rewrite exec_query_answered by assumption.
    split; reflexivity.
Qed.

(** ** Further properties of [main] *)

(** X1. The exit status is a function of four numbers only: the value
    open returns, the error code open leaves, the code the perror that
    follows a failed open stores (if it stores one), and the value the
    query returns.  It is the wrapped opposite of errno as perror left it
    when the handle is negative, otherwise 1 when the query returns zero
    or less and 0 when it returns more.  Nothing is assumed of the
    world. *)
Theorem exit_status_closed_form (w : world) (img : image) :
  exit_status w img =
    (if rv (open_reply w) <? 0 then
       CInt.neg (stored (perror_open w) (errno_open w))
     else if rv (ioctl_reply w) <=? 0 then 1
     else 0).
Proof.
  unfold exit_status.
  destruct (exec_behaviour w img) as [Hfd | Hfd Hret | Hfd Hret]; cbn [fst].
  - apply Z.ltb_lt in Hfd. rewrite Hfd. reflexivity.
  - apply Z.ltb_ge in Hfd. rewrite Hfd.
    assert (Hle : (rv (ioctl_reply w) <=? 0) = true) by (apply Z.leb_le; lia).
    rewrite Hle. reflexivity.
  - apply Z.ltb_ge in Hfd. rewrite Hfd.
    destruct (Z.leb_spec (rv (ioctl_reply w)) 0) as [Hle | Hgt].
    + replace (rv (ioctl_reply w)) with 0 by lia. reflexivity.
    + apply lnot_nonzero. lia.
Qed.

(** X2. No call is retried and no other file is touched: on every
    execution the first call is the open of /dev/kvm with O_RDWR, it is
    the only open, and the query, the close and perror are each issued at
    most once; the program makes between two and four calls. *)
Theorem device_opened_once_no_retry (w : world) (img : image) :
  hd_error (calls (final w img)) =
    Some (E_open "/dev/kvm" (O_RDWR h) (rv (open_reply w))) /\
  opens (calls (final w img)) = [("/dev/kvm", O_RDWR h)] /\
  (List.length (ioctls (calls (final w img))) <= 1)%nat /\
  (List.length (closes (calls (final w img))) <= 1)%nat /\
  (List.length (perrors (calls (final w img))) <= 1)%nat /\
  (2 <= List.length (calls (final w img)) <= 4)%nat.
Proof.
  unfold final.
  destruct (exec_behaviour w img) as [Hfd | Hfd Hret | Hfd Hret];
    cbn [snd calls hd_error opens ioctls closes perrors flat_map app List.length];
    repeat split; lia.
Qed.

(** X3. The program never uses a handle it does not hold and holds none
    when it ends: replaying the calls of any execution over an empty
    descriptor table meets no query and no close on a handle that is not
    open (so no use of the negative handle of a failed open, no use after
    close, no second close) and ends on the empty table. *)
Theorem no_descriptor_misuse_no_leak (w : world) (img : image) :
  held (calls (final w img)) [] = Some [].
Proof.
  unfold final.
  destruct (exec_behaviour w img) as [Hfd | Hfd Hret | Hfd Hret];
    cbn [snd calls held].
  - apply Z.ltb_lt in Hfd. rewrite Hfd. reflexivity.
  - apply Z.ltb_ge in Hfd. rewrite Hfd.
    cbn [existsb filter]. rewrite Z.eqb_refl. cbn [orb negb]. reflexivity.
  - apply Z.ltb_ge in Hfd. rewrite Hfd.
    cbn [existsb filter]. rewrite Z.eqb_refl. cbn [orb negb]. reflexivity.
Qed.

(** X4. The diagnostic of a failed query names the error of the query
    itself: when the query returns a negative value and stores the code e,
    the one line on standard error is the query message followed by the
    text of e, whatever code the close stores afterwards and whatever the
    open left before. *)
Theorem query_diagnostic_names_query_error (w : world) (img : image) (e : Z) :
  0 <= rv (open_reply w) ->
  rv (ioctl_reply w) < 0 ->
  err (ioctl_reply w) = Some e ->
  written_to STDERR_FILENO (output (final w img)) =
    [ioctl_msg ++ ": " ++ strerror w e ++ newline]%string.
Proof.
  intros Hfd Hret Herr. unfold final.
  rewrite exec_query_failed by assumption.
  cbn [snd output]. unfold errno_ioctl. rewrite Herr. reflexivity.
Qed.

(** X5. What a failed open leads to: one diagnostic on standard error,
    naming the code the open stored; no query and no close; and an exit
    status that is the opposite of errno as it stands at the return, the
    code perror stored if it stored one and the code of the open
    otherwise, hence not zero. *)
Theorem open_failure_path (w : world) (img : image) :
  rv (open_reply w) < 0 ->
  posix_reply (open_reply w) = true ->
  posix_code (perror_open w) = true ->
  err (open_reply w) = Some (errno_open w) /\
  output (final w img) =
    [(STDERR_FILENO, perror_text w open_msg (errno_open w))] /\
  ioctls (calls (final w img)) = [] /\
  closes (calls (final w img)) = [] /\
  errno (final w img) = stored (perror_open w) (errno_open w) /\
  exit_status w img = - errno (final w img) /\
  exit_status w img <> 0 /\
  (perror_open w = None -> exit_status w img = - errno_open w).
Proof.
  intros Hfd Hp Hq.
  destruct (errno_open_positive w Hfd Hp) as [Herr _].
  pose proof (errno_return_positive w Hfd Hp Hq) as Hrange.
  unfold exit_status, final. rewrite exec_open_failed by assumption.
  cbn [fst snd errno output calls].
  rewrite neg_errno by assumption.
  repeat split; try reflexivity; try assumption.
  - lia.
  - intros Hnone. unfold errno_return. rewrite Hnone. reflexivity.
Qed.

End Probe.

(** The interface does give access to the environment: a program that
    asks for it sees the difference between two images. *)
Example getenv_reads_environ :
  fst (run no_kvm (call (Getenv "LANG")) (init busy)) = Some "fr_FR.UTF-8" /\
  fst (run no_kvm (call (Getenv "LANG")) (init bare)) = None.
Proof. split; reflexivity. Qed.

(** The descriptor replay does fault on a second close, and shows a
    handle that was never closed. *)
Example held_rejects_double_close :
  held [E_open "/dev/kvm" 2 3; E_close 3 0; E_close 3 (-1)] [] = None /\
  held [E_open "/dev/kvm" 2 3; E_ioctl 3 44547 93 1] [] = Some [3].
Proof. split; reflexivity. Qed.

(** So does it to standard output. *)
Example puts_writes_stdout :
  written_to STDOUT_FILENO (output (snd (run no_kvm (call (Puts "ok")) (init bare)))) =
    ["ok" ++ newline].
Proof. reflexivity. Qed.

(** ** Runs on the sample worlds, with the Linux values of the constants *)

Module Runs.


Example run_no_kvm :
  exit_status linux no_kvm bare = -2 /\
  written_to STDERR_FILENO (output (final linux no_kvm bare)) =
    ["Failed to open /dev/kvm: No such file or directory" ++ newline] /\
  calls (final linux no_kvm bare) =
    [E_open "/dev/kvm" 2 (-1); E_perror "Failed to open /dev/kvm"].
Proof. repeat split. Qed.

Example run_supported :
  exit_status linux (host (ok 1) (ok 0)) busy = 0 /\
  output (final linux (host (ok 1) (ok 0)) busy) = [] /\
  calls (final linux (host (ok 1) (ok 0)) busy) =
    [E_open "/dev/kvm" 2 3; E_ioctl 3 44547 93 1; E_close 3 0].
Proof. repeat split. Qed.

Example run_query_failed :
  exit_status linux (host (fails ENOTTY) (fails EINTR)) busy = 1 /\
  written_to STDERR_FILENO (output (final linux (host (fails ENOTTY) (fails EINTR)) busy)) =
    ["Error checking /dev/kvm for 32-bit EL1 support: Inappropriate ioctl for device"
       ++ newline] /\
  closes (calls (final linux (host (fails ENOTTY) (fails EINTR)) busy)) = [3].
Proof. repeat split. Qed.

Lemma exit_negates_capability_witness :
  exit_status linux (host (ok 1) (ok 0)) bare = 0 /\
  exit_status linux (host (ok 0) (ok 0)) bare = 1.
Proof.
  split.
  - destruct (exit_negates_capability linux (host (ok 1) (ok 0)) bare)
      as (_ & Hone & _).
    + cbn. lia.
    + right. reflexivity.
    + apply Hone. reflexivity.
  - destruct (exit_negates_capability linux (host (ok 0) (ok 0)) bare)
      as (_ & _ & Hzero).
    + cbn. lia.
    + left. reflexivity.
    + apply Hzero. reflexivity.
Defined.

(** C2. On a host without the device whose standard error is
    write-only, the open fails and stores ENOENT, the diagnostic names
    ENOENT and no query is issued, but main returns the opposite of
    EINVAL, the code perror left in errno, not the opposite of the code
    of the failed open. *)
Theorem open_failure_status_is_perror_code :
  rv (open_reply linux no_kvm_stderr_wronly) < 0 /\
  err (open_reply linux no_kvm_stderr_wronly) = Some ENOENT /\
  written_to STDERR_FILENO (output (final linux no_kvm_stderr_wronly bare)) =
    ["Failed to open /dev/kvm: No such file or directory" ++ newline]%string /\
  ioctls (calls (final linux no_kvm_stderr_wronly bare)) = [] /\
  exit_status linux no_kvm_stderr_wronly bare = - EINVAL /\
  exit_status linux no_kvm_stderr_wronly bare <> - ENOENT.
Proof.
  split; [cbn; lia | ].
  split; [reflexivity | ].
  split; [reflexivity | ].
  split; [reflexivity | ].
  split; [reflexivity | ].
  intros Hsame. vm_compute in Hsame. discriminate Hsame.
Qed.

Lemma open_failure_path_witness :
  output (final linux no_kvm_stderr_wronly bare) =
    [(STDERR_FILENO, perror_text no_kvm_stderr_wronly open_msg ENOENT)] /\
  exit_status linux no_kvm_stderr_wronly bare =
    - errno (final linux no_kvm_stderr_wronly bare) /\
  exit_status linux no_kvm_stderr_wronly bare <> 0.
Proof.
  destruct (open_failure_path linux no_kvm_stderr_wronly bare)
    as (_ & Hout & _ & _ & _ & Hexit & Hnz & _).
  - cbn. lia.
  - reflexivity.
  - reflexivity.
  - repeat split; assumption.
Defined.

Lemma query_failure_reports_unsupported_witness :
  exit_status linux (host (fails ENOTTY) (ok 0)) bare = 1 /\
  closes (calls (final linux (host (fails ENOTTY) (ok 0)) bare)) = [3].
Proof.
  destruct (query_failure_reports_unsupported linux (host (fails ENOTTY) (ok 0)) bare)
    as (_ & Hclose & _ & _ & Hexit).
  - cbn. lia.
  - cbn. lia.
  - split; assumption.
Defined.

Lemma exit_status_trichotomy_witness :
  exit_status linux no_kvm_stderr_wronly busy < 0 /\
  (exit_status linux (host (ok 1) (ok 0)) busy = 0 \/
   exit_status linux (host (ok 1) (ok 0)) busy = 1 \/
   exit_status linux (host (ok 1) (ok 0)) busy < 0).
Proof.
  split.
  - destruct (exit_status_trichotomy linux no_kvm_stderr_wronly busy)
      as (_ & _ & Hneg & _).
    + reflexivity.
    + reflexivity.
    + apply Hneg. cbn. lia.
  - destruct (exit_status_trichotomy linux (host (ok 1) (ok 0)) busy)
      as (_ & _ & _ & _ & Hcases).
    + reflexivity.
    + reflexivity.
    + exact Hcases.
Defined.

Lemma query_failure_coalesced_witness :
  exit_status linux (host (ok 0) (ok 0)) bare = exit_status linux (host (fails ENOTTY) (ok 0)) busy /\
  exit_status linux (host (fails ENOTTY) (ok 0)) busy = 1.
Proof.
  destruct (query_failure_coalesced linux
              (host (ok 0) (ok 0)) (host (fails ENOTTY) (ok 0)) bare busy)
    as (Hsame & Hone & _).
  - cbn. lia.
  - cbn. lia.
  - reflexivity.
  - cbn. lia.
  - split; assumption.
Defined.

Lemma nonzero_answer_is_supported_witness :
  exit_status linux (host (ok 7) (ok 0)) bare = 0.
Proof.
  destruct (nonzero_answer_is_supported linux (host (ok 7) (ok 0)) bare)
    as (_ & _ & Hbig).
  - cbn. lia.
  - cbn. lia.
  - apply Hbig. cbn. lia.
Defined.

Lemma handle_closed_exactly_once_witness :
  closes (calls (final linux (host (fails ENOTTY) (fails EINTR)) bare)) = [3] /\
  closes (calls (final linux no_kvm bare)) = [].
Proof.
  split.
  - exact (proj1 (handle_closed_exactly_once linux (host (fails ENOTTY) (fails EINTR)) bare)).
  - exact (proj1 (handle_closed_exactly_once linux no_kvm bare)).
Defined.

Lemma argv_environ_not_consumed_witness :
  exit_status linux (host (fails ENOTTY) (ok 0)) bare =
    exit_status linux (host (fails ENOTTY) (fails EINTR)) busy /\
  output (final linux (host (fails ENOTTY) (ok 0)) bare) =
    output (final linux (host (fails ENOTTY) (fails EINTR)) busy).
Proof.
  apply argv_environ_not_consumed.
  - reflexivity.
  - reflexivity.
  - reflexivity.
  - intros e. reflexivity.
Defined.

Lemma query_diagnostic_names_query_error_witness :
  written_to STDERR_FILENO
    (output (final linux (host (fails ENOTTY) (fails EINTR)) bare)) =
    [ioctl_msg ++ ": " ++ messages ENOTTY ++ newline]%string.
Proof.
  apply (query_diagnostic_names_query_error linux
           (host (fails ENOTTY) (fails EINTR)) bare ENOTTY).
  - cbn. lia.
  - cbn. lia.
  - reflexivity.
Defined.

End Runs.
